(** * Manual OpenTelemetry instrumentation of the Flask to-do service

    A shallow embedding of [flask_demos/manual_instrumention/app.py]:
    the start-up code that reads the exporter configuration from the
    environment, and the three request handlers [home], [add] and
    [delete] with their spans, their counter increments and their calls
    into the task store.

    Telemetry is observed through an event log (what a collecting test
    double would see in place of the OTLP exporters): every call the
    handlers make on the tracer, on a span, on the counter and on the
    database session appends one event. *)

From Stdlib Require Import Ascii String.
From stdpp Require Import base option list strings gmap pretty.

Local Open Scope string_scope.

(** ** Python string primitives used at start-up *)

Module PyStr.

(** [c in s] for a one-character needle. *)
Fixpoint contains (c : ascii) (s : string) : bool :=
  match s with
  | EmptyString => false
  | String a s' => if Ascii.eqb a c then true else contains c s'
  end.

(** [s.split(sep)] for a one-character separator: every occurrence
    cuts, and the empty string splits into one empty piece. *)
Fixpoint split (sep : ascii) (s : string) : list string :=
  match s with
  | EmptyString => [EmptyString]
  | String a s' =>
      if Ascii.eqb a sep then EmptyString :: split sep s'
      else match split sep s' with
           | [] => [String a EmptyString]
           | piece :: rest => String a piece :: rest
           end
  end.

(** [s.split(sep, 1)]: only the first occurrence cuts. *)
Fixpoint split1 (sep : ascii) (s : string) : list string :=
  match s with
  | EmptyString => [EmptyString]
  | String a s' =>
      if Ascii.eqb a sep then [EmptyString; s']
      else match split1 sep s' with
           | [] => [String a EmptyString]
           | piece :: rest => String a piece :: rest
           end
  end.

(** [sep.join(items)], the inverse direction, used to state what a
    header string made of given pairs parses to. *)
Fixpoint join (sep : ascii) (items : list string) : string :=
  match items with
  | [] => EmptyString
  | [x] => x
  | x :: rest => x ++ String sep (join sep rest)
  end.

End PyStr.

(** ** Exceptions *)

Inductive Exn : Type :=
| ValueError (msg : string)
| AttributeError (msg : string)
| BadRequestKeyError (key : string)
| BuildError (endpoint : string)
| OperationalError.

(** ** Start-up: lines 18-31 *)

Definition comma : ascii := ","%char.
Definition colon : ascii := ":"%char.

(** Python truthiness of the result of [os.getenv]: [None] and the
    empty string are falsy. *)
Definition truthy (v : option string) : bool :=
  match v with
  | None => false
  | Some EmptyString => false
  | Some _ => true
  end.

(** [dict(iterable)] over a sequence of lists: every element must have
    exactly two components, and a later key overwrites an earlier one. *)
Fixpoint dict_update (m : gmap string string) (items : list (list string))
  : Exn + gmap string string :=
  match items with
  | [] => inr m
  | [k; v] :: rest => dict_update (<[k := v]> m) rest
  | _ :: _ =>
      inl (ValueError "dictionary update sequence element has wrong length")
  end.

Definition dict (items : list (list string)) : Exn + gmap string string :=
  dict_update ∅ items.

(** [dict(item.split(":", 1) for item in otlp_headers.split(",") if ":" in item)] *)
Definition headers_dict (otlp_headers : string) : Exn + gmap string string :=
  dict (map (PyStr.split1 colon)
            (List.filter (PyStr.contains colon)
                         (PyStr.split comma otlp_headers))).

Record Config : Type := mkConfig {
  cfg_endpoint : string;
  cfg_headers : gmap string string
}.

Definition startup_message : string :=
  "OTEL_EXPORTER_OTLP_ENDPOINT and OTEL_EXPORTER_OTLP_HEADERS must be set in environment variables".

(** The module-level configuration code.  [env_endpoint] and
    [env_headers] are the two results of [os.getenv]. *)
Definition startup (env_endpoint env_headers : option string) : Exn + Config :=
  if negb (truthy env_endpoint) || negb (truthy env_headers) then
    inl (ValueError startup_message)
  else
    match env_endpoint, env_headers with
    | Some otlp_endpoint, Some otlp_headers =>
        match headers_dict otlp_headers with
        | inl e => inl e
        | inr d => inr (mkConfig otlp_endpoint d)
        end
    | _, _ => inl (ValueError startup_message)
    end.

(** ** Telemetry and store: the observable world *)

(** Span attribute values the handlers use. *)
Inductive AttrValue : Type :=
| AStr (s : string)
| AInt (n : Z)
| ABool (b : bool).

(** [class Task(db.Model)]: the two mapped columns. *)
Record Task : Type := mkTask {
  id : N;
  description : string
}.

(** Round trips to the database made by the handlers. *)
Inductive StoreOp : Type :=
| QueryAll
| QueryGet (task_id : N)
| Commit.

Inductive Event : Type :=
| EvStartSpan (sid : nat) (name : string)
| EvSetAttribute (sid : nat) (key : string) (value : AttrValue)
| EvRecordException (sid : nat) (e : Exn)
| EvSetStatusError (sid : nat)
| EvEndSpan (sid : nat)
| EvCounterAdd (name : string) (amount : Z) (labels : gmap string string)
| EvStore (op : StoreOp) (ok : bool).

(** Pending work of the SQLAlchemy session. *)
Inductive SessionOp : Type :=
| SAdd (new_description : string)
| SDelete (t : Task).

Record World : Type := mkWorld {
  tasks : list Task;        (* rows of the task table, in rowid order *)
  session : list SessionOp; (* pending operations of the scoped session *)
  faults : list bool;       (* outcome of the coming store round trips:
                               [true] is a failing one, none left is success *)
  next_span : nat;          (* identifier of the next span started *)
  log : list Event          (* everything emitted so far, oldest first *)
}.

Definition set_tasks (ts : list Task) (w : World) : World :=
  mkWorld ts (session w) (faults w) (next_span w) (log w).
Definition set_session (s : list SessionOp) (w : World) : World :=
  mkWorld (tasks w) s (faults w) (next_span w) (log w).
Definition set_faults (fs : list bool) (w : World) : World :=
  mkWorld (tasks w) (session w) fs (next_span w) (log w).
Definition set_next_span (n : nat) (w : World) : World :=
  mkWorld (tasks w) (session w) (faults w) n (log w).
Definition set_log (l : list Event) (w : World) : World :=
  mkWorld (tasks w) (session w) (faults w) (next_span w) l.

(** ** The handler monad: state plus Python exceptions *)

Definition M (A : Type) : Type := World → (Exn + A) * World.

Definition ret {A} (a : A) : M A := λ w, (inr a, w).

Definition raise {A} (e : Exn) : M A := λ w, (inl e, w).

Definition bind {A B} (m : M A) (k : A → M B) : M B :=
  λ w, match m w with
       | (inl e, w1) => (inl e, w1)
       | (inr a, w1) => k a w1
       end.

Declare Scope handler_scope.
Delimit Scope handler_scope with handler.
Notation "x <- m ;; k" := (bind m (λ x, k))
  (at level 100, m at next level, right associativity) : handler_scope.
Notation "m ;; k" := (bind m (λ _, k))
  (at level 100, right associativity) : handler_scope.
Local Open Scope handler_scope.

Definition emit (e : Event) : M unit :=
  λ w, (inr tt, set_log (log w ++ [e]) w).

(** The [with cm as x: body] statement for a context manager whose
    [__exit__] does not swallow exceptions: [leave] runs on every way
    out of [body] and is told which exception, if any, is in flight. *)
Definition with_ {R A} (enter : M R) (leave : R → option Exn → M unit)
    (body : R → M A) : M A :=
  λ w, match enter w with
       | (inl e, w1) => (inl e, w1)
       | (inr r, w1) =>
           match body r w1 with
           | (inl e, w2) =>
               match leave r (Some e) w2 with
               | (inl e', w3) => (inl e', w3)
               | (inr _, w3) => (inl e, w3)
               end
           | (inr a, w2) =>
               match leave r None w2 with
               | (inl e', w3) => (inl e', w3)
               | (inr _, w3) => (inr a, w3)
               end
           end
       end.

(** ** Tracer, span and counter *)

(** [tracer.start_span(name)] *)
Definition start_span (name : string) : M nat :=
  λ w, let sid := next_span w in
       (inr sid, set_log (log w ++ [EvStartSpan sid name]) (set_next_span (S sid) w)).

(** [span.set_attribute(key, value)] *)
Definition set_attribute (span : nat) (key : string) (value : AttrValue) : M unit :=
  emit (EvSetAttribute span key value).

(** [Span.__exit__]: an exception in flight is recorded on the span and
    sets its status to error; the span is then ended. *)
Definition span_exit (span : nat) (exc : option Exn) : M unit :=
  match exc with
  | Some e =>
      emit (EvRecordException span e) ;;
      emit (EvSetStatusError span) ;;
      emit (EvEndSpan span)
  | None => emit (EvEndSpan span)
  end.

Definition with_span {A} (name : string) (body : nat → M A) : M A :=
  with_ (start_span name) span_exit body.

(** [requests_counter.add(amount, labels)] on the counter created as
    [requests_count]. *)
Definition requests_counter_add (amount : Z) (labels : gmap string string) : M unit :=
  emit (EvCounterAdd "requests_count" amount labels).

(** ** The task store behind Flask-SQLAlchemy *)

(** Whether the coming round trip succeeds. *)
Definition store_ok (fs : list bool) : bool :=
  match fs with
  | true :: _ => false
  | _ => true
  end.

(** One round trip: it consumes the next scheduled outcome, is logged,
    and raises when the outcome is a failure. *)
Definition round_trip (op : StoreOp) : M unit :=
  λ w, let ok := store_ok (faults w) in
       (if ok then inr tt else inl OperationalError,
        set_log (log w ++ [EvStore op ok]) (set_faults (tail (faults w)) w)).

(** The integer primary key SQLite gives a new row: one more than the
    largest in the table.  (That is SQLite's rule as long as the largest
    id is below the largest 64-bit rowid; a table that has reached it is
    given an unused id picked at random, which this function does not
    follow.) *)
Definition fresh_id (ts : list Task) : N :=
  N.succ (foldr (λ t acc, N.max (id t) acc) 0%N ts).

Definition has_id (task_id : N) (t : Task) : bool := N.eqb (id t) task_id.

Definition apply_op (ts : list Task) (op : SessionOp) : list Task :=
  match op with
  | SAdd d => ts ++ [mkTask (fresh_id ts) d]
  | SDelete t => List.filter (λ r, negb (has_id (id t) r)) ts
  end.

(** [Task.query.all()] *)
Definition query_all : M (list Task) :=
  round_trip QueryAll ;; (λ w, (inr (tasks w), w)).

(** [Task.query.get(task_id)], for an id that fits a 64-bit rowid (a
    larger one cannot be bound to the query and raises before the
    round trip). *)
Definition query_get (task_id : N) : M (option Task) :=
  round_trip (QueryGet task_id) ;;
  (λ w, (inr (List.find (has_id task_id) (tasks w)), w)).

(** [db.session.add(obj)] and [db.session.delete(obj)] only mark the
    object in the session. *)
Definition session_add (new_description : string) : M unit :=
  λ w, (inr tt, set_session (session w ++ [SAdd new_description]) w).

Definition session_delete (t : Task) : M unit :=
  λ w, (inr tt, set_session (session w ++ [SDelete t]) w).

(** [db.session.commit()]: the pending operations reach the table only
    when the round trip succeeds. *)
Definition session_commit : M unit :=
  round_trip Commit ;;
  (λ w, (inr tt, set_session [] (set_tasks (foldl apply_op (tasks w) (session w)) w))).

(** [with app.app_context()]: the session is scoped to the application
    context, so the block works on a session of its own, which is torn
    down with whatever is still pending in it when the block is left;
    the session of the enclosing context is the current one again. *)
Definition app_context_push : M (list SessionOp) :=
  λ w, (inr (session w), set_session [] w).

Definition app_context_pop (outer : list SessionOp) (_ : option Exn) : M unit :=
  λ w, (inr tt, set_session outer w).

Definition with_app_context {A} (body : M A) : M A :=
  with_ app_context_push app_context_pop (λ _, body).

(** ** Flask helpers *)

Inductive Response : Type :=
| Rendered (listed : list Task)   (* [render_template_string(HOME_HTML, tasks=...)] *)
| Redirect (location : string).

Definition render_template_string (listed : list Task) : Response := Rendered listed.

(** [url_for(endpoint)] for the routes that take no argument. *)
Definition url_for (endpoint : string) : M string :=
  if String.eqb endpoint "home" then ret "/"
  else if String.eqb endpoint "add" then ret "/add"
  else raise (BuildError endpoint).

Definition redirect (location : string) : Response := Redirect location.

(** [request.form[key]] *)
Definition form_get (form : gmap string string) (key : string) : M string :=
  match form !! key with
  | Some v => ret v
  | None => raise (BadRequestKeyError key)
  end.

(** [task.description] on the result of [Task.query.get]. *)
Definition get_description (t : option Task) : M string :=
  match t with
  | Some r => ret (description r)
  | None => raise (AttributeError "'NoneType' object has no attribute 'description'")
  end.

(** ** The three handlers: lines 164-207 *)

Module App.

Definition home : M Response :=
  with_app_context
    (with_span "home-request" (λ span,
       requests_counter_add 1 {[ "method" := "GET"; "endpoint" := "/" ]} ;;
       tasks <- query_all ;;
       set_attribute span "tasks_retrieved.quantity" (AInt (Z.of_nat (length tasks))) ;;
       ret (render_template_string tasks))).

Definition add (form : gmap string string) : M Response :=
  with_app_context
    (with_span "add-task" (λ span,
       requests_counter_add 1 {[ "method" := "POST"; "endpoint" := "/add" ]} ;;
       task_description <- form_get form "task" ;;
       set_attribute span "task_description" (AStr task_description) ;;
       session_add task_description ;;
       session_commit ;;
       set_attribute span "added_to_db" (ABool true) ;;
       location <- url_for "home" ;;
       ret (redirect location))).

Definition delete (task_id : N) : M Response :=
  with_app_context
    (with_span "delete-task" (λ span,
       requests_counter_add 1
         {[ "method" := "GET"; "endpoint" := "/delete/" ++ pretty task_id ]} ;;
       task_to_delete <- query_get task_id ;;
       task_description <- get_description task_to_delete ;;
       set_attribute span "task_to_delete" (AStr task_description) ;;
       match task_to_delete with
       | Some t =>
           session_delete t ;;
           session_commit ;;
           set_attribute span "deleted_from_db" (ABool true)
       | None => ret tt
       end ;;
       location <- url_for "home" ;;
       ret (redirect location))).

End App.

(** ** Routing and the running process *)

Inductive Request : Type :=
| GetHome                                   (* GET /  *)
| PostAdd (form : gmap string string)       (* POST /add *)
| GetDelete (task_id : N).                  (* GET /delete/<int:task_id> *)

Definition dispatch (r : Request) : M Response :=
  match r with
  | GetHome => App.home
  | PostAdd form => App.add form
  | GetDelete task_id => App.delete task_id
  end.

Fixpoint serve (reqs : list Request) (w : World) : list (Exn + Response) * World :=
  match reqs with
  | [] => ([], w)
  | r :: rest =>
      let '(out, w1) := dispatch r w in
      let '(outs, w2) := serve rest w1 in
      (out :: outs, w2)
  end.

(** The whole script: the module body runs first, and requests are only
    served once it has run to its end.  Between the configuration code
    of lines 18-31 and [app.run], the module body builds the providers,
    the exporters, the counter and the table through library calls
    (lines 33-86).  [setup] stands for those calls: handed the
    configuration, they go through or raise, as the exporter of line 38
    does on an endpoint it cannot parse. *)
Definition process (setup : Config → Exn + unit)
    (env_endpoint env_headers : option string)
    (reqs : list Request) (w : World) : Exn + (Config * list (Exn + Response) * World) :=
  match startup env_endpoint env_headers with
  | inl e => inl e
  | inr cfg =>
      match setup cfg with
      | inl e => inl e
      | inr _ => let '(outs, w') := serve reqs w in inr (cfg, outs, w')
      end
  end.

(** Library calls that go through on every configuration. *)
Definition accepting (cfg : Config) : Exn + unit := inr tt.

Definition empty_world : World := mkWorld [] [] [] 0 [].

(** ** Reading the specification against the routes *)

(** Method and path under which each handler is routed
    ([@app.route(...)] above each of them), and the span name the
    specification gives to the operation. *)
Definition http_method (r : Request) : string :=
  match r with
  | GetHome => "GET"
  | PostAdd _ => "POST"
  | GetDelete _ => "GET"
  end.

Definition http_endpoint (r : Request) : string :=
  match r with
  | GetHome => "/"
  | PostAdd _ => "/add"
  | GetDelete task_id => "/delete/" ++ pretty task_id
  end.

Definition operation_name (r : Request) : string :=
  match r with
  | GetHome => "home-request"
  | PostAdd _ => "add-task"
  | GetDelete _ => "delete-task"
  end.

(** What a collecting test double reads off a stretch of the log. *)
Definition started (evs : list Event) : list (nat * string) :=
  omap (λ e, match e with EvStartSpan sid name => Some (sid, name) | _ => None end) evs.

Definition ended (evs : list Event) : list nat :=
  omap (λ e, match e with EvEndSpan sid => Some sid | _ => None end) evs.

Definition counted (evs : list Event) : list (string * Z * gmap string string) :=
  omap (λ e, match e with
             | EvCounterAdd name amount labels => Some (name, amount, labels)
             | _ => None
             end) evs.

(** [e1] is emitted strictly before [e2] in [evs]. *)
Definition precedes (e1 e2 : Event) (evs : list Event) : Prop :=
  ∃ i j, evs !! i = Some e1 ∧ evs !! j = Some e2 ∧ i < j.

(** The header string as the specification describes it: every
    comma-separated item is a [key:value] pair. *)
Definition well_formed_headers (s : string) : bool :=
  forallb (PyStr.contains colon) (PyStr.split comma s).

(** The environment variable is unset or set to the empty string. *)
Definition missing (v : option string) : Prop := v = None ∨ v = Some "".

(** The start-up requirement as the specification words it: a missing
    or malformed endpoint or header string stops the process, whatever
    the library calls that follow would accept. *)
Definition fatal_when_missing_or_malformed : Prop :=
  ∀ setup env_endpoint env_headers reqs w,
    missing env_endpoint ∨ missing env_headers
    ∨ (∃ s, env_headers = Some s ∧ well_formed_headers s = false) →
    ∃ e, process setup env_endpoint env_headers reqs w = inl e.

(** One header pair written out as [key:value]. *)
Definition pair_item (kv : string * string) : string :=
  kv.1 ++ String colon kv.2.

(** A key holds neither separator, a value no comma. *)
Definition plain_pair (kv : string * string) : Prop :=
  PyStr.contains colon kv.1 = false ∧ PyStr.contains comma kv.1 = false
  ∧ PyStr.contains comma kv.2 = false.

(** A computation that only appends to the log, starts and ends no
    span, and makes exactly the counter increments [cs]. *)
Definition tallies {A} (cs : list (string * Z * gmap string string)) (m : M A) : Prop :=
  ∀ w, ∃ evs, log (m w).2 = (log w ++ evs)%list
            ∧ next_span (m w).2 = next_span w
            ∧ started evs = [] ∧ ended evs = [] ∧ counted evs = cs.

(** Between requests: the spans started so far are numbered from 0 and
    each of them has been ended, once, in the order they were started. *)
Definition closed_spans (w : World) : Prop :=
  (started (log w)).*1 = seq 0 (next_span w)
  ∧ ended (log w) = seq 0 (next_span w).

(** The labels the specification asks of the increment of a request. *)
Definition request_labels (r : Request) : gmap string string :=
  {[ "method" := http_method r; "endpoint" := http_endpoint r ]}.

(** The not-found requirement as the specification words it: deleting
    an id that no stored task has leaves the table as it is, redirects
    to the list view, and leaves a fact about the absence on the span. *)
Definition absent_delete_redirects : Prop :=
  ∀ task_id w,
    List.find (has_id task_id) (tasks w) = None →
    store_ok (faults w) = true →
    ∃ w' key value,
      App.delete task_id w = (inr (Redirect "/"), w')
      ∧ tasks w' = tasks w
      ∧ EvSetAttribute (next_span w) key value ∈ log w'.

(** * Properties *)

Example headers_dict_two :
  headers_dict "a:1,b:2:3,junk,a:4" = inr (<["a" := "4"]> (<["b" := "2:3"]> (<["a" := "1"]> ∅))).
Proof. reflexivity. Qed.

Example split_commas :
  PyStr.split comma "a:1,,b" = ["a:1"; ""; "b"] ∧ PyStr.split comma "" = [""]
  ∧ PyStr.split1 colon "k:v:w" = ["k"; "v:w"] ∧ PyStr.split1 colon "kv" = ["kv"].
Proof. done. Qed.

Example startup_unset : startup None (Some "api-key:abc123") = inl (ValueError startup_message).
Proof. reflexivity. Qed.

Example startup_empty : startup (Some "") (Some "api-key:abc123") = inl (ValueError startup_message).
Proof. reflexivity. Qed.

Example delete_label : pretty 42%N = "42".
Proof. reflexivity. Qed.

Example add_then_home :
  fst (serve [PostAdd {[ "task" := "buy milk" ]}; GetHome] empty_world)
  = [inr (Redirect "/"); inr (Rendered [mkTask 1 "buy milk"])].
Proof. vm_compute. reflexivity. Qed.

Example delete_missing :
  fst (App.delete 7 empty_world)
  = inl (AttributeError "'NoneType' object has no attribute 'description'").
Proof. vm_compute. reflexivity. Qed.

(** ** Splitting and joining *)

Section PyStrFacts.

Variable sep : ascii.

Lemma contains_app (a b : string) :
  PyStr.contains sep (a ++ b) = PyStr.contains sep a || PyStr.contains sep b.
Proof.
  induction a as [|c a IH]; simpl; [done|].
  destruct (Ascii.eqb c sep); [done | apply IH].
Qed.

Lemma split_plain (s : string) :
  PyStr.contains sep s = false → PyStr.split sep s = [s].
Proof.
  induction s as [|c s IH]; simpl; [done|].
  destruct (Ascii.eqb c sep); [done|].
  intros H. by rewrite (IH H).
Qed.

Lemma split_app (k r : string) :
  PyStr.contains sep k = false →
  PyStr.split sep (k ++ String sep r) = k :: PyStr.split sep r.
Proof.
  induction k as [|c k IH]; simpl.
  - intros _. by rewrite Ascii.eqb_refl.
  - destruct (Ascii.eqb c sep); [done|].
    intros H. by rewrite (IH H).
Qed.

Lemma split1_app (k v : string) :
  PyStr.contains sep k = false →
  PyStr.split1 sep (k ++ String sep v) = [k; v].
Proof.
  induction k as [|c k IH]; simpl.
  - intros _. by rewrite Ascii.eqb_refl.
  - destruct (Ascii.eqb c sep); [done|].
    intros H. by rewrite (IH H).
Qed.

(** A piece that holds the separator always splits in exactly two. *)
Lemma split1_two (s : string) :
  PyStr.contains sep s = true →
  ∃ k v, PyStr.split1 sep s = [k; v] ∧ PyStr.contains sep k = false
         ∧ s = k ++ String sep v.
Proof.
  induction s as [|c s IH]; simpl; [done|].
  destruct (Ascii.eqb_spec c sep) as [->|Hne].
  - intros _. by exists EmptyString, s.
  - intros H. destruct (IH H) as (k & v & -> & Hk & ->).
    exists (String c k), v. simpl.
    destruct (Ascii.eqb_spec c sep); [done|]. by rewrite Hk.
Qed.

Lemma split_join (items : list string) :
  items ≠ [] →
  Forall (λ x, PyStr.contains sep x = false) items →
  PyStr.split sep (PyStr.join sep items) = items.
Proof.
  induction items as [|x [|y rest] IH]; [done| |].
  - intros _ H. simpl. apply split_plain. by inversion H.
  - intros _ H. inversion H as [|?? Hx Hrest]; subst.
    change (PyStr.join sep (x :: y :: rest))
      with (x ++ String sep (PyStr.join sep (y :: rest))).
    rewrite split_app by done. f_equal. by apply IH.
Qed.

End PyStrFacts.

(** ** Start-up *)

Lemma dict_update_pairs (pairs : list (string * string)) (m : gmap string string) :
  dict_update m (map (λ kv, [kv.1; kv.2]) pairs)
  = inr (foldl (λ acc kv, <[kv.1 := kv.2]> acc) m pairs).
Proof.
  revert m. induction pairs as [|[k v] pairs IH]; intros m; simpl; [done|].
  apply IH.
Qed.

(** The filter on [":" in item] makes the [dict] call safe: it is never
    handed a piece that splits in fewer than two. *)
Lemma dict_update_total (items : list string) (m : gmap string string) :
  Forall (λ x, PyStr.contains colon x = true) items →
  ∃ d, dict_update m (map (PyStr.split1 colon) items) = inr d.
Proof.
  intros H. revert m. induction H as [|x items Hx _ IH]; intros m; simpl.
  - by exists m.
  - destruct (split1_two colon x Hx) as (k & v & -> & _). apply IH.
Qed.

Lemma headers_dict_total (otlp_headers : string) :
  ∃ d, headers_dict otlp_headers = inr d.
Proof.
  unfold headers_dict, dict. apply dict_update_total.
  apply Forall_forall. intros x Hx.
  apply list_elem_of_In, filter_In in Hx. tauto.
Qed.

Lemma truthy_missing (v : option string) : truthy v = false ↔ missing v.
Proof.
  unfold missing. destruct v as [[|c s]|]; simpl; split; intros H;
    try done; auto; destruct H; congruence.
Qed.

Lemma startup_present (env_endpoint env_headers : option string) :
  ¬ missing env_endpoint → ¬ missing env_headers →
  ∃ otlp_endpoint otlp_headers d,
    env_endpoint = Some otlp_endpoint ∧ env_headers = Some otlp_headers
    ∧ headers_dict otlp_headers = inr d
    ∧ startup env_endpoint env_headers = inr (mkConfig otlp_endpoint d).
Proof.
  intros He Hh.
  rewrite <- truthy_missing in He, Hh.
  apply not_false_iff_true in He, Hh.
  destruct env_endpoint as [e|]; [|done].
  destruct env_headers as [h|]; [|done].
  destruct (headers_dict_total h) as [d Hd].
  exists e, h, d. unfold startup. by rewrite He, Hh, Hd.
Qed.

Lemma pair_item_plain (kv : string * string) :
  plain_pair kv →
  PyStr.contains comma (pair_item kv) = false
  ∧ PyStr.contains colon (pair_item kv) = true
  ∧ PyStr.split1 colon (pair_item kv) = [kv.1; kv.2].
Proof.
  intros (Hk1 & Hk2 & Hv). unfold pair_item. split_and!.
  - rewrite contains_app, Hk2. simpl. exact Hv.
  - rewrite contains_app. simpl. apply orb_true_r.
  - by apply split1_app.
Qed.

(** C4.  A header string made of [key:value] items joined by commas
    parses to the mapping of those keys to those values: each item is
    cut at its first colon only (a value may itself hold colons, there
    is no escaping), and a later item overwrites an earlier one with the
    same key.  In particular ["api-key:abc123"] parses to
    [{"api-key": "abc123"}]. *)
Theorem headers_dict_of_pairs (pairs : list (string * string)) :
  Forall plain_pair pairs →
  headers_dict (PyStr.join comma (map pair_item pairs))
  = inr (foldl (λ acc kv, <[kv.1 := kv.2]> acc) ∅ pairs)
  ∧ headers_dict "api-key:abc123" = inr {[ "api-key" := "abc123" ]}.
Proof.
  intros Hplain. split; [|reflexivity].
  unfold headers_dict, dict.
  assert (Hitems : List.filter (PyStr.contains colon)
                     (PyStr.split comma (PyStr.join comma (map pair_item pairs)))
                   = map pair_item pairs).
  { destruct pairs as [|p pairs]; [reflexivity|].
    rewrite split_join; [| done |].
    - apply forallb_filter_id, forallb_forall. intros x Hx.
      apply in_map_iff in Hx as (kv & <- & Hkv).
      apply pair_item_plain. rewrite Forall_forall in Hplain.
      by apply Hplain, list_elem_of_In.
    - apply Forall_forall. intros x Hx.
      apply list_elem_of_In, in_map_iff in Hx as (kv & <- & Hkv).
      apply pair_item_plain. rewrite Forall_forall in Hplain.
      by apply Hplain, list_elem_of_In. }
  rewrite Hitems, map_map.
  rewrite <- dict_update_pairs. f_equal.
  apply map_ext_in. intros kv Hkv.
  apply pair_item_plain. rewrite Forall_forall in Hplain.
  by apply Hplain, list_elem_of_In.
Qed.

Lemma headers_dict_of_pairs_witness :
  Forall plain_pair [("api-key", "abc123"); ("x", "http://h:1")]
  ∧ headers_dict "api-key:abc123,x:http://h:1"
    = inr (<["x" := "http://h:1"]> (<["api-key" := "abc123"]> ∅)).
Proof.
  assert (H : Forall plain_pair [("api-key", "abc123"); ("x", "http://h:1")])
    by (repeat constructor).
  split; [exact H|].
  exact (proj1 (headers_dict_of_pairs _ H)).
Defined.

(** C9.  A non-empty header string none of whose comma-separated items
    holds a colon is not an error: every item is dropped, the mapping is
    empty, the configuration code runs to its end, and the process,
    handing the empty mapping to the library calls, goes on to serve
    requests when these accept the endpoint. *)
Theorem headers_without_colon_dropped
    (setup : Config → Exn + unit)
    (otlp_endpoint otlp_headers : string) (reqs : list Request) (w : World) :
  otlp_endpoint ≠ "" → otlp_headers ≠ "" →
  Forall (λ item, PyStr.contains colon item = false)
         (PyStr.split comma otlp_headers) →
  headers_dict otlp_headers = inr ∅
  ∧ startup (Some otlp_endpoint) (Some otlp_headers)
    = inr (mkConfig otlp_endpoint ∅)
  ∧ (setup (mkConfig otlp_endpoint ∅) = inr tt →
     process setup (Some otlp_endpoint) (Some otlp_headers) reqs w
     = inr (mkConfig otlp_endpoint ∅, (serve reqs w).1, (serve reqs w).2)).
Proof.
  intros He Hh Hitems.
  assert (Hd : headers_dict otlp_headers = inr ∅).
  { unfold headers_dict, dict.
    induction Hitems as [|x items Hx _ IH]; simpl; [done|].
    by rewrite Hx. }
  assert (Hs : startup (Some otlp_endpoint) (Some otlp_headers)
               = inr (mkConfig otlp_endpoint ∅)).
  { unfold startup. rewrite Hd.
    destruct otlp_endpoint; [done|]. by destruct otlp_headers. }
  split_and!; [done..|].
  intros Hsetup. unfold process. rewrite Hs, Hsetup. by destruct (serve reqs w).
Qed.

Lemma headers_without_colon_dropped_witness :
  headers_dict "api-key=abc123,other" = inr ∅
  ∧ startup (Some "http://collector:4317") (Some "api-key=abc123,other")
    = inr (mkConfig "http://collector:4317" ∅)
  ∧ (accepting (mkConfig "http://collector:4317" ∅) = inr tt →
     process accepting (Some "http://collector:4317") (Some "api-key=abc123,other")
       [GetHome] empty_world
     = inr (mkConfig "http://collector:4317" ∅,
            (serve [GetHome] empty_world).1, (serve [GetHome] empty_world).2)).
Proof.
  apply (headers_without_colon_dropped accepting "http://collector:4317"
           "api-key=abc123,other" [GetHome] empty_world).
  - discriminate.
  - discriminate.
  - repeat constructor.
Defined.

(** C3, as the specification words it, fails: a header string that is
    not a list of [key:value] pairs is accepted by the configuration
    code, and the process starts where the library calls go through. *)
Lemma malformed_headers_accepted : ¬ fatal_when_missing_or_malformed.
Proof.
  intros H.
  destruct (H accepting (Some "http://collector:4317") (Some "api-key abc123")
              [] empty_world) as [e He].
  - right; right. by exists "api-key abc123".
  - vm_compute in He. discriminate.
Qed.

(** C3, amended.  When the endpoint or the header string is unset or
    empty, start-up stops with the [ValueError] of line 24: the library
    calls are not reached and no request is served, so that the failure
    is the failure of the process and not of a request. *)
Theorem startup_fatal_when_missing
    (setup : Config → Exn + unit)
    (env_endpoint env_headers : option string) (reqs : list Request) (w : World) :
  missing env_endpoint ∨ missing env_headers →
  startup env_endpoint env_headers = inl (ValueError startup_message)
  ∧ process setup env_endpoint env_headers reqs w = inl (ValueError startup_message).
Proof.
  intros H.
  assert (Hs : startup env_endpoint env_headers = inl (ValueError startup_message)).
  { unfold startup. rewrite <- !truthy_missing in H.
    destruct H as [-> | ->]; [done|]. by rewrite orb_true_r. }
  split; [done|]. unfold process. by rewrite Hs.
Qed.

Lemma startup_fatal_when_missing_witness :
  (missing None ∨ missing (Some "api-key:abc123"))
  ∧ process accepting None (Some "api-key:abc123") [GetHome] empty_world
    = inl (ValueError startup_message).
Proof.
  assert (H : missing None ∨ missing (Some "api-key:abc123"))
    by (left; left; reflexivity).
  split; [exact H|].
  exact (proj2 (startup_fatal_when_missing accepting None (Some "api-key:abc123")
                  [GetHome] empty_world H)).
Defined.

(** ** What a stretch of the log shows *)

Local Open Scope list_scope.

Lemma started_app (a b : list Event) : started (a ++ b) = started a ++ started b.
Proof. apply omap_app. Qed.

Lemma ended_app (a b : list Event) : ended (a ++ b) = ended a ++ ended b.
Proof. apply omap_app. Qed.

Lemma counted_app (a b : list Event) : counted (a ++ b) = counted a ++ counted b.
Proof. apply omap_app. Qed.

(** ** Computations that leave spans alone *)

Section Tallies.

Context {A B : Type}.

Lemma tallies_ret (a : A) : tallies [] (ret a).
Proof. intros w. exists []. simpl. by rewrite app_nil_r. Qed.

Lemma tallies_raise (e : Exn) : tallies [] (@raise A e).
Proof. intros w. exists []. simpl. by rewrite app_nil_r. Qed.

(** A sequence that counts nothing: it may stop at any step. *)
Lemma tallies_bind (m : M A) (k : A → M B) :
  tallies [] m → (∀ a, tallies [] (k a)) → tallies [] (bind m k).
Proof.
  intros Hm Hk w. unfold bind.
  destruct (Hm w) as (e1 & Hl1 & Hn1 & Hs1 & He1 & Hc1).
  destruct (m w) as [[e|a] w1]; simpl in *.
  - by exists e1.
  - destruct (Hk a w1) as (e2 & Hl2 & Hn2 & Hs2 & He2 & Hc2).
    exists (e1 ++ e2). rewrite Hl2, Hl1, Hn2, Hn1, app_assoc.
    rewrite started_app, ended_app, counted_app.
    by rewrite Hs1, Hs2, He1, He2, Hc1, Hc2.
Qed.

(** The increment comes first and cannot fail, so it is made whatever
    the rest of the block does. *)
Lemma tallies_counter_first (amount : Z) (labels : gmap string string) (rest : M A) :
  tallies [] rest →
  tallies [("requests_count", amount, labels)]
          (requests_counter_add amount labels ;; rest).
Proof.
  intros Hrest w. unfold bind, requests_counter_add, emit.
  destruct (Hrest (set_log (log w ++ [EvCounterAdd "requests_count" amount labels]) w))
    as (evs & Hl & Hn & Hs & He & Hc).
  exists (EvCounterAdd "requests_count" amount labels :: evs).
  simpl in *. rewrite Hl, Hn, <- app_assoc. simpl.
  unfold started, ended, counted in *. simpl. by rewrite Hs, He, Hc.
Qed.

End Tallies.

Lemma tallies_set_attribute (span : nat) (key : string) (value : AttrValue) :
  tallies [] (set_attribute span key value).
Proof. intros w. by exists [EvSetAttribute span key value]. Qed.

Lemma tallies_round_trip (op : StoreOp) : tallies [] (round_trip op).
Proof. intros w. by exists [EvStore op (store_ok (faults w))]. Qed.

Lemma tallies_query_all : tallies [] query_all.
Proof.
  apply tallies_bind; [apply tallies_round_trip|].
  intros _ w. exists []. simpl. by rewrite app_nil_r.
Qed.

Lemma tallies_query_get (task_id : N) : tallies [] (query_get task_id).
Proof.
  apply tallies_bind; [apply tallies_round_trip|].
  intros _ w. exists []. simpl. by rewrite app_nil_r.
Qed.

Lemma tallies_session_add (d : string) : tallies [] (session_add d).
Proof. intros w. exists []. simpl. by rewrite app_nil_r. Qed.

Lemma tallies_session_delete (t : Task) : tallies [] (session_delete t).
Proof. intros w. exists []. simpl. by rewrite app_nil_r. Qed.

Lemma tallies_session_commit : tallies [] session_commit.
Proof.
  apply tallies_bind; [apply tallies_round_trip|].
  intros _ w. exists []. simpl. by rewrite app_nil_r.
Qed.

Lemma tallies_form_get (form : gmap string string) (key : string) :
  tallies [] (form_get form key).
Proof.
  unfold form_get. destruct (form !! key); [apply tallies_ret | apply tallies_raise].
Qed.

Lemma tallies_get_description (t : option Task) : tallies [] (get_description t).
Proof.
  destruct t; [apply tallies_ret | apply tallies_raise].
Qed.

Lemma tallies_url_for (endpoint : string) : tallies [] (url_for endpoint).
Proof.
  unfold url_for. repeat case_match; [apply tallies_ret.. | apply tallies_raise].
Qed.

Create HintDb tally discriminated.
#[local] Hint Resolve tallies_ret tallies_raise tallies_set_attribute
  tallies_round_trip tallies_query_all tallies_query_get tallies_session_add
  tallies_session_delete tallies_session_commit tallies_form_get
  tallies_get_description tallies_url_for : tally.

(** Repeatedly splits a sequence into its steps. *)
Ltac tally :=
  repeat first
    [ solve [eauto with tally]
    | apply tallies_counter_first
    | apply tallies_bind; [| intros ? ]
    | match goal with |- tallies _ (match ?t with _ => _ end) => destruct t end ].

(** ** Scoped spans *)

(** Whatever the block does short of touching spans, and however it is
    left, [with tracer.start_span(name)] starts one span, the next one,
    and ends that span once, as the last thing it does. *)
Lemma with_span_scoped {A} (name : string) (body : nat → M A)
    (cs : list (string * Z * gmap string string)) :
  (∀ span, tallies cs (body span)) →
  ∀ w, ∃ evs,
    log (with_span name body w).2 = (log w ++ evs)%list
    ∧ next_span (with_span name body w).2 = S (next_span w)
    ∧ started evs = [(next_span w, name)]
    ∧ ended evs = [next_span w]
    ∧ counted evs = cs
    ∧ last evs = Some (EvEndSpan (next_span w)).
Proof.
  intros Hbody w. unfold with_span, with_, start_span.
  set (w1 := set_log _ _).
  destruct (Hbody (next_span w) w1) as (evs & Hl & Hn & Hs & He & Hc).
  destruct (body (next_span w) w1) as [[e|a] w2]; simpl in *.
  - exists (EvStartSpan (next_span w) name :: evs ++
            [EvRecordException (next_span w) e; EvSetStatusError (next_span w);
             EvEndSpan (next_span w)]).
    rewrite Hl, Hn. split_and!; try done.
    + by rewrite <- !app_assoc.
    + unfold started in *. simpl. by rewrite omap_app, Hs.
    + unfold ended in *. simpl. by rewrite omap_app, He.
    + unfold counted in *. simpl. by rewrite omap_app, Hc, app_nil_r.
    + rewrite app_comm_cons, last_app. done.
  - exists (EvStartSpan (next_span w) name :: evs ++ [EvEndSpan (next_span w)]).
    rewrite Hl, Hn. split_and!; try done.
    + by rewrite <- !app_assoc.
    + unfold started in *. simpl. by rewrite omap_app, Hs.
    + unfold ended in *. simpl. by rewrite omap_app, He.
    + unfold counted in *. simpl. by rewrite omap_app, Hc, app_nil_r.
    + rewrite app_comm_cons, last_app. done.
Qed.

(** The application context adds nothing to the log. *)
Lemma with_app_context_log {A} (body : M A) (w : World) :
  log (with_app_context body w).2 = log (body (set_session [] w)).2
  ∧ next_span (with_app_context body w).2 = next_span (body (set_session [] w)).2.
Proof.
  unfold with_app_context, with_, app_context_push, app_context_pop.
  by destruct (body (set_session [] w)) as [[e|a] w2].
Qed.

(** The telemetry of one request, whichever way its handler is left. *)
Lemma dispatch_telemetry (r : Request) (w : World) :
  ∃ evs,
    log (dispatch r w).2 = (log w ++ evs)%list
    ∧ next_span (dispatch r w).2 = S (next_span w)
    ∧ started evs = [(next_span w, operation_name r)]
    ∧ ended evs = [next_span w]
    ∧ counted evs = [("requests_count", 1%Z, request_labels r)]
    ∧ last evs = Some (EvEndSpan (next_span w)).
Proof.
  destruct r as [|form|task_id]; simpl;
    unfold App.home, App.add, App.delete;
    match goal with |- context [with_app_context (with_span ?name ?b)] =>
      destruct (with_app_context_log (with_span name b) w) as [-> ->];
      refine (with_span_scoped name b _ _ (set_session [] w));
      intros span; tally
    end.
Qed.

(** ** The handlers, path by path *)

(** Unfolds a handler down to the state it is run on. *)
Ltac run_handler :=
  unfold App.home, App.add, App.delete, with_app_context, with_span, with_,
    app_context_push, app_context_pop, start_span, span_exit,
    requests_counter_add, set_attribute, query_all, query_get, session_add,
    session_delete, session_commit, form_get, get_description, round_trip,
    emit, bind, ret, raise, redirect, url_for, render_template_string;
  simpl.

Ltac flatten_log := rewrite <- ?app_assoc; simpl; try reflexivity.

Section Paths.

Variable w : World.

Let n := next_span w.
Let fs := faults w.

(** *** [home] *)

Lemma home_returns :
  store_ok fs = true →
  App.home w =
    (inr (Rendered (tasks w)),
     mkWorld (tasks w) (session w) (tail fs) (S n)
       (log w ++ [EvStartSpan n "home-request";
                  EvCounterAdd "requests_count" 1
                    {[ "method" := "GET"; "endpoint" := "/" ]};
                  EvStore QueryAll true;
                  EvSetAttribute n "tasks_retrieved.quantity"
                    (AInt (Z.of_nat (length (tasks w))));
                  EvEndSpan n])).
Proof.
  subst n fs. intros Hok. run_handler. rewrite Hok. simpl. flatten_log.
Qed.

Lemma home_query_fails :
  store_ok fs = false →
  App.home w =
    (inl OperationalError,
     mkWorld (tasks w) (session w) (tail fs) (S n)
       (log w ++ [EvStartSpan n "home-request";
                  EvCounterAdd "requests_count" 1
                    {[ "method" := "GET"; "endpoint" := "/" ]};
                  EvStore QueryAll false;
                  EvRecordException n OperationalError;
                  EvSetStatusError n;
                  EvEndSpan n])).
Proof.
  subst n fs. intros Hok. run_handler. rewrite Hok. simpl. flatten_log.
Qed.

(** *** [add] *)

Variable form : gmap string string.

Lemma add_returns (task_description : string) :
  form !! "task" = Some task_description →
  store_ok fs = true →
  App.add form w =
    (inr (Redirect "/"),
     mkWorld (tasks w ++ [mkTask (fresh_id (tasks w)) task_description])
       (session w) (tail fs) (S n)
       (log w ++ [EvStartSpan n "add-task";
                  EvCounterAdd "requests_count" 1
                    {[ "method" := "POST"; "endpoint" := "/add" ]};
                  EvSetAttribute n "task_description" (AStr task_description);
                  EvStore Commit true;
                  EvSetAttribute n "added_to_db" (ABool true);
                  EvEndSpan n])).
Proof.
  subst n fs. intros Hform Hok. run_handler. rewrite Hform. simpl.
  rewrite Hok. simpl. flatten_log.
Qed.

Lemma add_commit_fails (task_description : string) :
  form !! "task" = Some task_description →
  store_ok fs = false →
  App.add form w =
    (inl OperationalError,
     mkWorld (tasks w) (session w) (tail fs) (S n)
       (log w ++ [EvStartSpan n "add-task";
                  EvCounterAdd "requests_count" 1
                    {[ "method" := "POST"; "endpoint" := "/add" ]};
                  EvSetAttribute n "task_description" (AStr task_description);
                  EvStore Commit false;
                  EvRecordException n OperationalError;
                  EvSetStatusError n;
                  EvEndSpan n])).
Proof.
  subst n fs. intros Hform Hok. run_handler. rewrite Hform. simpl.
  rewrite Hok. simpl. flatten_log.
Qed.

Lemma add_no_field :
  form !! "task" = None →
  App.add form w =
    (inl (BadRequestKeyError "task"),
     mkWorld (tasks w) (session w) fs (S n)
       (log w ++ [EvStartSpan n "add-task";
                  EvCounterAdd "requests_count" 1
                    {[ "method" := "POST"; "endpoint" := "/add" ]};
                  EvRecordException n (BadRequestKeyError "task");
                  EvSetStatusError n;
                  EvEndSpan n])).
Proof.
  subst n fs. intros Hform. run_handler. rewrite Hform. simpl. flatten_log.
Qed.

(** *** [delete] *)

Variable task_id : N.

Let delete_labels : gmap string string :=
  {[ "method" := "GET"; "endpoint" := ("/delete/" ++ pretty task_id)%string ]}.

Lemma delete_query_fails :
  store_ok fs = false →
  App.delete task_id w =
    (inl OperationalError,
     mkWorld (tasks w) (session w) (tail fs) (S n)
       (log w ++ [EvStartSpan n "delete-task";
                  EvCounterAdd "requests_count" 1 delete_labels;
                  EvStore (QueryGet task_id) false;
                  EvRecordException n OperationalError;
                  EvSetStatusError n;
                  EvEndSpan n])).
Proof.
  subst n fs delete_labels. intros Hok. run_handler. rewrite Hok. simpl.
  flatten_log.
Qed.

(** The record is absent: reading its [description] raises before the
    test on [task_to_delete] is reached. *)
Lemma delete_absent :
  store_ok fs = true →
  List.find (has_id task_id) (tasks w) = None →
  App.delete task_id w =
    (inl (AttributeError "'NoneType' object has no attribute 'description'"),
     mkWorld (tasks w) (session w) (tail fs) (S n)
       (log w ++ [EvStartSpan n "delete-task";
                  EvCounterAdd "requests_count" 1 delete_labels;
                  EvStore (QueryGet task_id) true;
                  EvRecordException n
                    (AttributeError "'NoneType' object has no attribute 'description'");
                  EvSetStatusError n;
                  EvEndSpan n])).
Proof.
  subst n fs delete_labels. intros Hok Hfind. run_handler. rewrite Hok. simpl.
  rewrite Hfind. simpl. flatten_log.
Qed.

Lemma delete_returns (t : Task) :
  store_ok fs = true →
  List.find (has_id task_id) (tasks w) = Some t →
  store_ok (tail fs) = true →
  App.delete task_id w =
    (inr (Redirect "/"),
     mkWorld (List.filter (λ r, negb (has_id (id t) r)) (tasks w))
       (session w) (tail (tail fs)) (S n)
       (log w ++ [EvStartSpan n "delete-task";
                  EvCounterAdd "requests_count" 1 delete_labels;
                  EvStore (QueryGet task_id) true;
                  EvSetAttribute n "task_to_delete" (AStr (description t));
                  EvStore Commit true;
                  EvSetAttribute n "deleted_from_db" (ABool true);
                  EvEndSpan n])).
Proof.
  subst n fs delete_labels. intros Hok Hfind Hok2. run_handler. rewrite Hok. simpl.
  rewrite Hfind. simpl. rewrite Hok2. simpl. flatten_log.
Qed.

Lemma delete_commit_fails (t : Task) :
  store_ok fs = true →
  List.find (has_id task_id) (tasks w) = Some t →
  store_ok (tail fs) = false →
  App.delete task_id w =
    (inl OperationalError,
     mkWorld (tasks w) (session w) (tail (tail fs)) (S n)
       (log w ++ [EvStartSpan n "delete-task";
                  EvCounterAdd "requests_count" 1 delete_labels;
                  EvStore (QueryGet task_id) true;
                  EvSetAttribute n "task_to_delete" (AStr (description t));
                  EvStore Commit false;
                  EvRecordException n OperationalError;
                  EvSetStatusError n;
                  EvEndSpan n])).
Proof.
  subst n fs delete_labels. intros Hok Hfind Hok2. run_handler. rewrite Hok. simpl.
  rewrite Hfind. simpl. rewrite Hok2. simpl. flatten_log.
Qed.

End Paths.

(** ** Requests and their telemetry *)

Lemma closed_spans_empty : closed_spans empty_world.
Proof. by split. Qed.

(** C2.  Every handled request makes exactly one increment of
    [requests_count], by 1, labelled with the method and the endpoint
    under which its handler is routed (for [delete] the endpoint label
    carries the id), and starts exactly one span, named after the
    operation. *)
Theorem one_increment_one_span (r : Request) (w : World) :
  ∃ evs,
    log (dispatch r w).2 = log w ++ evs
    ∧ counted evs
      = [("requests_count", 1%Z,
          {[ "method" := http_method r; "endpoint" := http_endpoint r ]})]
    ∧ (started evs).*2 = [operation_name r].
Proof.
  destruct (dispatch_telemetry r w) as (evs & Hl & _ & Hs & _ & Hc & _).
  exists evs. split_and!; [done | done |]. by rewrite Hs.
Qed.

(** Over a log in which every span so far is closed, the span of a
    request is fresh, so it is ended once in the whole log. *)
Lemma dispatch_closed_spans (r : Request) (w : World) :
  closed_spans w →
  count_occ Nat.eq_dec (ended (log (dispatch r w).2)) (next_span w) = 1
  ∧ closed_spans (dispatch r w).2.
Proof.
  destruct (dispatch_telemetry r w) as (evs & Hl & Hn & Hs & He & _ & Hlast).
  intros [Hstarted Hended]. split.
  - rewrite Hl, ended_app, He, Hended, count_occ_app. simpl.
    destruct (Nat.eq_dec (next_span w) (next_span w)); [|done].
    rewrite (proj1 (count_occ_not_In Nat.eq_dec _ _)); [done|].
    rewrite in_seq. lia.
  - unfold closed_spans.
    rewrite Hl, Hn, started_app, ended_app, fmap_app, Hs, He, Hstarted, Hended.
    by rewrite seq_S.
Qed.

(** Every span of a run of the service is closed once the run is over. *)
Lemma serve_closed_spans (reqs : list Request) (w : World) :
  closed_spans w → closed_spans (serve reqs w).2.
Proof.
  revert w. induction reqs as [|r reqs IH]; intros w Hw; simpl; [done|].
  pose proof (proj2 (dispatch_closed_spans r w Hw)) as Hw1.
  destruct (dispatch r w) as [out w1]. simpl in Hw1.
  specialize (IH w1 Hw1). by destruct (serve reqs w1).
Qed.

(** C5.  Whichever handler runs and however it is left (it returns, or
    the form lookup, the attribute read or a store round trip raises),
    the span started at entry is ended exactly once, as the last thing
    the request does; over a log in which all earlier spans are closed,
    it is ended once in the whole log, and all spans are closed again. *)
Theorem span_closed_on_every_exit (r : Request) (w : World) :
  ∃ evs,
    log (dispatch r w).2 = log w ++ evs
    ∧ started evs = [(next_span w, operation_name r)]
    ∧ ended evs = [next_span w]
    ∧ last evs = Some (EvEndSpan (next_span w))
    ∧ (closed_spans w →
       count_occ Nat.eq_dec (ended (log (dispatch r w).2)) (next_span w) = 1
       ∧ closed_spans (dispatch r w).2).
Proof.
  destruct (dispatch_telemetry r w) as (evs & Hl & Hn & Hs & He & _ & Hlast).
  exists evs. split_and!; try done.
  apply dispatch_closed_spans.
Qed.

Lemma span_closed_on_every_exit_witness :
  closed_spans empty_world
  ∧ count_occ Nat.eq_dec (ended (log (dispatch (GetDelete 7) empty_world).2)) 0 = 1
  ∧ closed_spans (dispatch (GetDelete 7) empty_world).2.
Proof.
  assert (Hclosed : closed_spans empty_world) by (split; reflexivity).
  split; [exact Hclosed|].
  destruct (span_closed_on_every_exit (GetDelete 7) empty_world)
    as (evs & _ & _ & _ & _ & H).
  exact (H Hclosed).
Defined.

(** ** What the handlers record, and when *)

Lemma store_ok_cases (fs : list bool) : {store_ok fs = true} + {store_ok fs = false}.
Proof. destruct (store_ok fs); auto. Qed.

(** Solves [precedes] on a log that is written out. *)
Ltac in_order i j := exists i, j; split_and!; [reflexivity | reflexivity | lia].

(** Solves the absence of an event from a log that is written out. *)
Ltac not_logged :=
  let H := fresh in
  intros H; repeat (apply elem_of_cons in H as [H|H]; [discriminate H|]);
  by apply elem_of_nil in H.

(** C6.  An add request that submits a description records it on the
    span as [task_description] before the span is ended; when the
    commit succeeds, [added_to_db = True] is recorded after the commit
    and before the span is ended, and when the commit fails it is not
    recorded at all. *)
Theorem add_records_description_and_commit
    (form : gmap string string) (task_description : string) (w : World) :
  form !! "task" = Some task_description →
  ∃ evs,
    log (App.add form w).2 = log w ++ evs
    ∧ precedes (EvSetAttribute (next_span w) "task_description" (AStr task_description))
               (EvEndSpan (next_span w)) evs
    ∧ (store_ok (faults w) = true →
       precedes (EvStore Commit true)
                (EvSetAttribute (next_span w) "added_to_db" (ABool true)) evs
       ∧ precedes (EvSetAttribute (next_span w) "added_to_db" (ABool true))
                  (EvEndSpan (next_span w)) evs)
    ∧ (store_ok (faults w) = false →
       ∀ value, EvSetAttribute (next_span w) "added_to_db" value ∉ evs).
Proof.
  intros Hform.
  destruct (store_ok_cases (faults w)) as [Hok|Hok].
  - rewrite (add_returns w form _ Hform Hok). simpl.
    eexists. split; [reflexivity|]. split_and!.
    + in_order 2 5.
    + intros _. split; [in_order 3 4 | in_order 4 5].
    + congruence.
  - rewrite (add_commit_fails w form _ Hform Hok). simpl.
    eexists. split; [reflexivity|]. split_and!.
    + in_order 2 6.
    + congruence.
    + intros _ value. not_logged.
Qed.

Lemma add_records_description_and_commit_witness :
  ({[ "task" := "buy milk" ]} : gmap string string) !! "task" = Some "buy milk"
  ∧ ∃ evs,
      log (App.add {[ "task" := "buy milk" ]} empty_world).2 = log empty_world ++ evs
      ∧ precedes (EvSetAttribute 0 "task_description" (AStr "buy milk"))
                 (EvEndSpan 0) evs.
Proof.
  assert (Hform : ({[ "task" := "buy milk" ]} : gmap string string) !! "task"
                  = Some "buy milk") by (vm_compute; reflexivity).
  split; [exact Hform|].
  destruct (add_records_description_and_commit _ _ empty_world Hform)
    as (evs & Hl & Hd & _).
  by exists evs.
Defined.

(** C7.  A request whose store round trip fails has still made its one
    increment, and made it before the failing round trip. *)
Theorem increment_survives_store_failure (r : Request) (w : World) :
  (dispatch r w).1 = inl OperationalError →
  ∃ evs op,
    log (dispatch r w).2 = log w ++ evs
    ∧ counted evs = [("requests_count", 1%Z, request_labels r)]
    ∧ precedes (EvCounterAdd "requests_count" 1 (request_labels r))
               (EvStore op false) evs.
Proof.
  destruct r as [|form|task_id]; simpl.
  - destruct (store_ok_cases (faults w)) as [Hok|Hok].
    + rewrite (home_returns w Hok). discriminate.
    + rewrite (home_query_fails w Hok). intros _.
      eexists _, QueryAll. split; [reflexivity|]. split; [reflexivity|].
      in_order 1 2.
  - destruct (form !! "task") as [d|] eqn:Hform.
    + destruct (store_ok_cases (faults w)) as [Hok|Hok].
      * rewrite (add_returns w form _ Hform Hok). discriminate.
      * rewrite (add_commit_fails w form _ Hform Hok). intros _.
        eexists _, Commit. split; [reflexivity|]. split; [reflexivity|].
        in_order 1 3.
    + rewrite (add_no_field w form Hform). discriminate.
  - destruct (store_ok_cases (faults w)) as [Hok|Hok].
    + destruct (List.find (has_id task_id) (tasks w)) as [t|] eqn:Hfind.
      * destruct (store_ok_cases (tail (faults w))) as [Hok2|Hok2].
        -- rewrite (delete_returns w task_id t Hok Hfind Hok2). discriminate.
        -- rewrite (delete_commit_fails w task_id t Hok Hfind Hok2). intros _.
           eexists _, Commit. split; [reflexivity|]. split; [reflexivity|].
           in_order 1 4.
      * rewrite (delete_absent w task_id Hok Hfind). discriminate.
    + rewrite (delete_query_fails w task_id Hok). intros _.
      eexists _, (QueryGet task_id). split; [reflexivity|]. split; [reflexivity|].
      in_order 1 2.
Qed.

Lemma increment_survives_store_failure_witness :
  (dispatch (PostAdd {[ "task" := "buy milk" ]}) (set_faults [true] empty_world)).1
  = inl OperationalError
  ∧ ∃ evs op,
      log (dispatch (PostAdd {[ "task" := "buy milk" ]})
             (set_faults [true] empty_world)).2 = [] ++ evs
      ∧ counted evs
        = [("requests_count", 1%Z, {[ "method" := "POST"; "endpoint" := "/add" ]})]
      ∧ precedes (EvCounterAdd "requests_count" 1
                    {[ "method" := "POST"; "endpoint" := "/add" ]})
                 (EvStore op false) evs.
Proof.
  split; [reflexivity|].
  exact (increment_survives_store_failure (PostAdd {[ "task" := "buy milk" ]})
           (set_faults [true] empty_world) eq_refl).
Defined.

(** ** The task table *)

Lemma fresh_id_above (ts : list Task) :
  Forall (λ t, (id t < fresh_id ts)%N) ts.
Proof.
  unfold fresh_id. induction ts as [|t ts IH]; simpl; constructor.
  - lia.
  - eapply Forall_impl; [exact IH|]. simpl. intros r Hr. lia.
Qed.

(** C10.  Whatever string is submitted, the empty one included, an add
    request whose commit succeeds creates one task whose description is
    exactly the submitted text, under an id no stored task has; the
    stored tasks are all kept, in the order they had, and the table
    holds nothing else. *)
Theorem add_stores_description_verbatim
    (form : gmap string string) (task_description : string) (w : World) :
  form !! "task" = Some task_description →
  store_ok (faults w) = true →
  (App.add form w).1 = inr (Redirect "/")
  ∧ ∃ new,
      description new = task_description
      ∧ (id new ∉ map id (tasks w))
      ∧ tasks (App.add form w).2 ≡ₚ new :: tasks w
      ∧ tasks w `sublist_of` tasks (App.add form w).2.
Proof.
  intros Hform Hok. rewrite (add_returns w form _ Hform Hok). simpl.
  split; [done|].
  exists (mkTask (fresh_id (tasks w)) task_description). split_and!.
  - done.
  - simpl. intros Hin.
    apply list_elem_of_In, in_map_iff in Hin as (t & Hid & Hin).
    pose proof (fresh_id_above (tasks w)) as Habove.
    rewrite Forall_forall in Habove.
    apply list_elem_of_In in Hin. specialize (Habove _ Hin). simpl in Habove. lia.
  - symmetry. apply Permutation_cons_append.
  - by apply sublist_inserts_r.
Qed.

Lemma add_stores_description_verbatim_witness :
  ({[ "task" := "" ]} : gmap string string) !! "task" = Some ""
  ∧ store_ok (faults (set_tasks [mkTask 3 "walk"] empty_world)) = true
  ∧ ∃ new,
      description new = ""
      ∧ (id new ∉ map id [mkTask 3 "walk"])
      ∧ tasks (App.add {[ "task" := "" ]} (set_tasks [mkTask 3 "walk"] empty_world)).2
        ≡ₚ new :: [mkTask 3 "walk"]
      ∧ [mkTask 3 "walk"]
        `sublist_of`
        tasks (App.add {[ "task" := "" ]} (set_tasks [mkTask 3 "walk"] empty_world)).2.
Proof.
  assert (Hform : ({[ "task" := "" ]} : gmap string string) !! "task" = Some "")
    by (vm_compute; reflexivity).
  split_and!; [exact Hform | reflexivity |].
  exact (proj2 (add_stores_description_verbatim _ _
                  (set_tasks [mkTask 3 "walk"] empty_world) Hform eq_refl)).
Defined.

(** C8.  After an add request that submits a description, the list
    request that follows is handed a task with that description (both
    requests reaching the store); so it is for ["buy milk"]. *)
Theorem add_then_list_round_trip
    (form : gmap string string) (task_description : string) (w : World) :
  form !! "task" = Some task_description →
  store_ok (faults w) = true →
  store_ok (tail (faults w)) = true →
  ∃ listed w2,
    App.home (App.add form w).2 = (inr (Rendered listed), w2)
    ∧ ∃ t, t ∈ listed ∧ description t = task_description.
Proof.
  intros Hform Hok Hok2. rewrite (add_returns w form _ Hform Hok). simpl.
  rewrite home_returns by exact Hok2. simpl.
  eexists _, _. split; [reflexivity|].
  exists (mkTask (fresh_id (tasks w)) task_description). split; [|done].
  apply elem_of_app. right. apply list_elem_of_singleton. done.
Qed.

Lemma add_then_list_round_trip_witness :
  ({[ "task" := "buy milk" ]} : gmap string string) !! "task" = Some "buy milk"
  ∧ store_ok (faults empty_world) = true
  ∧ store_ok (tail (faults empty_world)) = true
  ∧ ∃ listed w2,
      App.home (App.add {[ "task" := "buy milk" ]} empty_world).2
      = (inr (Rendered listed), w2)
      ∧ ∃ t, t ∈ listed ∧ description t = "buy milk".
Proof.
  assert (Hform : ({[ "task" := "buy milk" ]} : gmap string string) !! "task"
                  = Some "buy milk") by (vm_compute; reflexivity).
  split_and!; [exact Hform | reflexivity | reflexivity |].
  exact (add_then_list_round_trip _ _ empty_world Hform eq_refl eq_refl).
Defined.

(** ** Deleting an id that is not stored *)

(** C1, as the specification words it, fails: on an empty table the
    delete handler does not redirect. *)
Lemma absent_delete_does_not_redirect : ¬ absent_delete_redirects.
Proof.
  intros H.
  destruct (H 7%N empty_world eq_refl eq_refl) as (w' & key & value & Hrun & _).
  rewrite (delete_absent empty_world 7 eq_refl eq_refl) in Hrun.
  discriminate Hrun.
Qed.

(** C1, amended.  A delete request for an id that no stored task has
    leaves the store as it was: no row is removed and no commit is
    attempted.  The request has made its one increment, its span is
    ended once, and no attribute at all is set on the span: neither
    [deleted_from_db] nor a fact about the absence. *)
Theorem delete_absent_leaves_store (task_id : N) (w : World) :
  List.find (has_id task_id) (tasks w) = None →
  ∃ evs,
    log (App.delete task_id w).2 = log w ++ evs
    ∧ tasks (App.delete task_id w).2 = tasks w
    ∧ session (App.delete task_id w).2 = session w
    ∧ (∀ ok, EvStore Commit ok ∉ evs)
    ∧ (∀ span key value, EvSetAttribute span key value ∉ evs)
    ∧ counted evs = [("requests_count", 1%Z, request_labels (GetDelete task_id))]
    ∧ ended evs = [next_span w].
Proof.
  intros Hfind.
  destruct (store_ok_cases (faults w)) as [Hok|Hok].
  - rewrite (delete_absent w task_id Hok Hfind). simpl.
    eexists. split; [reflexivity|]. split_and!; try done.
    + intros ok. not_logged.
    + intros span key value. not_logged.
  - rewrite (delete_query_fails w task_id Hok). simpl.
    eexists. split; [reflexivity|]. split_and!; try done.
    + intros ok. not_logged.
    + intros span key value. not_logged.
Qed.

Lemma delete_absent_leaves_store_witness :
  List.find (has_id 7) (tasks empty_world) = None
  ∧ ∃ evs,
      log (App.delete 7 empty_world).2 = log empty_world ++ evs
      ∧ tasks (App.delete 7 empty_world).2 = tasks empty_world
      ∧ session (App.delete 7 empty_world).2 = session empty_world
      ∧ (∀ ok, EvStore Commit ok ∉ evs)
      ∧ (∀ span key value, EvSetAttribute span key value ∉ evs)
      ∧ counted evs = [("requests_count", 1%Z, request_labels (GetDelete 7))]
      ∧ ended evs = [next_span empty_world].
Proof.
  split; [reflexivity|].
  exact (delete_absent_leaves_store 7 empty_world eq_refl).
Defined.

(** * Further properties of the start-up code *)

(** ** The header mapping, entry by entry *)

(** No piece of a split holds the separator. *)
Lemma split_pieces_plain (sep : ascii) (s : string) :
  Forall (λ piece, PyStr.contains sep piece = false) (PyStr.split sep s).
Proof.
  induction s as [|c s IH]; simpl; [by constructor|].
  destruct (Ascii.eqb c sep) eqn:Hc; [by constructor|].
  destruct (PyStr.split sep s) as [|piece rest].
  { constructor; [|constructor]. simpl. by rewrite Hc. }
  inversion IH as [|?? Hpiece Hrest]; subst.
  constructor; [|done]. simpl. by rewrite Hc.
Qed.

Lemma split_nonempty (sep : ascii) (s : string) : PyStr.split sep s ≠ [].
Proof.
  destruct s as [|c s]; simpl; [done|].
  destruct (Ascii.eqb c sep); [done|]. by destruct (PyStr.split sep s).
Qed.

(** Splitting distributes over a separator, wherever it stands. *)
Lemma split_cat (sep : ascii) (a b : string) :
  PyStr.split sep (a ++ String sep b) = PyStr.split sep a ++ PyStr.split sep b.
Proof.
  induction a as [|c a IH]; simpl.
  - by rewrite Ascii.eqb_refl.
  - destruct (Ascii.eqb c sep).
    + by rewrite IH.
    + rewrite IH. pose proof (split_nonempty sep a) as Hne.
      by destruct (PyStr.split sep a).
Qed.

(** Items go into the dictionary from left to right. *)
Lemma dict_update_app (l1 l2 : list (list string)) (m : gmap string string) :
  dict_update m (l1 ++ l2)
  = match dict_update m l1 with
    | inl e => inl e
    | inr m1 => dict_update m1 l2
    end.
Proof.
  revert m. induction l1 as [|item l1 IH]; intros m; simpl; [done|].
  destruct item as [|k [|v [|? ?]]]; first [apply IH | done].
Qed.

(** What is already in the dictionary only matters where the items do
    not overwrite it. *)
Lemma dict_update_union (l : list (list string)) (m m0 d : gmap string string) :
  dict_update m0 l = inr d → dict_update (m0 ∪ m) l = inr (d ∪ m).
Proof.
  revert m0 d. induction l as [|item l IH]; intros m0 d; simpl.
  - by intros [= <-].
  - destruct item as [|k [|v [|? ?]]]; try done.
    intros Hd. rewrite insert_union_l. by apply IH.
Qed.

Lemma header_items_colon (s : string) :
  Forall (λ item, PyStr.contains colon item = true)
         (List.filter (PyStr.contains colon) (PyStr.split comma s)).
Proof.
  apply Forall_forall. intros x Hx.
  apply list_elem_of_In, filter_In in Hx. tauto.
Qed.

(** Every binding of the dictionary was there before or comes from one
    of the items. *)
Lemma dict_update_lookup (items : list string) (m d : gmap string string)
    (k v : string) :
  Forall (λ item, PyStr.contains colon item = true) items →
  dict_update m (map (PyStr.split1 colon) items) = inr d →
  d !! k = Some v →
  m !! k = Some v ∨ ∃ item, item ∈ items ∧ PyStr.split1 colon item = [k; v].
Proof.
  intros Hitems. revert m.
  induction Hitems as [|x items Hx _ IH]; intros m; simpl.
  - intros [= <-]. auto.
  - destruct (split1_two colon x Hx) as (k0 & v0 & Hsplit & _).
    rewrite Hsplit. intros Hd Hk.
    destruct (IH _ Hd Hk) as [Hm|(item & Hin & Hitem)].
    + destruct (decide (k0 = k)) as [->|Hne].
      * rewrite lookup_insert_eq in Hm. injection Hm as ->.
        right. exists x. split; [apply list_elem_of_here | done].
      * rewrite lookup_insert_ne in Hm by done. by left.
    + right. exists item. split; [by apply list_elem_of_further | done].
Qed.

(** No binding is ever removed, and every item leaves its key bound. *)
Lemma dict_update_keys (items : list string) (m d : gmap string string) :
  Forall (λ item, PyStr.contains colon item = true) items →
  dict_update m (map (PyStr.split1 colon) items) = inr d →
  (∀ k, is_Some (m !! k) → is_Some (d !! k))
  ∧ ∀ item, item ∈ items →
      ∃ k v, PyStr.split1 colon item = [k; v] ∧ is_Some (d !! k).
Proof.
  intros Hitems. revert m.
  induction Hitems as [|x items Hx _ IH]; intros m; simpl.
  - intros [= <-]. split; [done|]. intros item Hin. by apply elem_of_nil in Hin.
  - destruct (split1_two colon x Hx) as (k0 & v0 & Hsplit & _).
    rewrite Hsplit. intros Hd.
    destruct (IH _ Hd) as [Hkeep Hbound]. split.
    + intros k Hk. apply Hkeep.
      destruct (decide (k0 = k)) as [->|Hne];
        [rewrite lookup_insert_eq | rewrite lookup_insert_ne by done]; eauto.
    + intros item Hin. apply elem_of_cons in Hin as [->|Hin]; [|by apply Hbound].
      exists k0, v0. split; [done|]. apply Hkeep.
      rewrite lookup_insert_eq. eauto.
Qed.

(** X1.  Every entry of the parsed header mapping is one of the
    comma-separated items of the string, cut at its first colon: the
    key holds neither a colon nor a comma, the value no comma, and
    nothing is trimmed or invented. *)
Theorem headers_dict_entries_are_items (otlp_headers : string)
    (d : gmap string string) (k v : string) :
  headers_dict otlp_headers = inr d →
  d !! k = Some v →
  pair_item (k, v) ∈ PyStr.split comma otlp_headers
  ∧ PyStr.contains colon k = false
  ∧ PyStr.contains comma k = false
  ∧ PyStr.contains comma v = false.
Proof.
  intros Hd Hk.
  destruct (dict_update_lookup _ _ _ _ _ (header_items_colon otlp_headers) Hd Hk)
    as [Hempty|(item & Hin & Hsplit)]; [by rewrite lookup_empty in Hempty|].
  apply list_elem_of_In, filter_In in Hin as [Hin Hcolon].
  destruct (split1_two colon item Hcolon) as (k' & v' & Hsplit' & Hk' & ->).
  rewrite Hsplit in Hsplit'. injection Hsplit' as <- <-.
  change (k ++ String colon v)%string with (pair_item (k, v)) in Hin.
  pose proof (split_pieces_plain comma otlp_headers) as Hplain.
  rewrite Forall_forall in Hplain.
  apply list_elem_of_In in Hin. specialize (Hplain _ Hin).
  unfold pair_item in Hplain. simpl in Hplain.
  rewrite contains_app in Hplain. simpl in Hplain.
  apply orb_false_iff in Hplain as [Hck Hcv].
  by split_and!.
Qed.

Lemma headers_dict_entries_are_items_witness :
  headers_dict "a:1,junk,b:2:3" = inr (<["b" := "2:3"]> (<["a" := "1"]> ∅))
  ∧ (<["b" := "2:3"]> (<["a" := "1"]> ∅) : gmap string string) !! "b" = Some "2:3"
  ∧ pair_item ("b", "2:3") ∈ PyStr.split comma "a:1,junk,b:2:3".
Proof.
  assert (Hd : headers_dict "a:1,junk,b:2:3"
               = inr (<["b" := "2:3"]> (<["a" := "1"]> ∅))) by reflexivity.
  assert (Hk : (<["b" := "2:3"]> (<["a" := "1"]> ∅) : gmap string string) !! "b"
               = Some "2:3") by (vm_compute; reflexivity).
  split_and!; [exact Hd | exact Hk |].
  exact (proj1 (headers_dict_entries_are_items _ _ _ _ Hd Hk)).
Defined.

(** X2.  No item that holds a colon is lost: whatever else the string
    holds, the part of the item before its first colon is a key of the
    parsed mapping. *)
Theorem headers_dict_binds_every_item (otlp_headers item : string)
    (d : gmap string string) :
  headers_dict otlp_headers = inr d →
  item ∈ PyStr.split comma otlp_headers →
  PyStr.contains colon item = true →
  ∃ k v, item = pair_item (k, v) ∧ PyStr.contains colon k = false
         ∧ is_Some (d !! k).
Proof.
  intros Hd Hin Hcolon.
  destruct (dict_update_keys _ _ _ (header_items_colon otlp_headers) Hd)
    as [_ Hbound].
  destruct (Hbound item) as (k & v & Hsplit & Hk).
  { apply list_elem_of_In, filter_In. split; [by apply list_elem_of_In | done]. }
  destruct (split1_two colon item Hcolon) as (k' & v' & Hsplit' & Hk' & ->).
  rewrite Hsplit in Hsplit'. injection Hsplit' as <- <-.
  by exists k, v.
Qed.

Lemma headers_dict_binds_every_item_witness :
  headers_dict "a:1,junk,a:2" = inr (<["a" := "2"]> (<["a" := "1"]> ∅))
  ∧ "a:1" ∈ PyStr.split comma "a:1,junk,a:2"
  ∧ PyStr.contains colon "a:1" = true
  ∧ ∃ k v, "a:1" = pair_item (k, v) ∧ PyStr.contains colon k = false
           ∧ is_Some ((<["a" := "2"]> (<["a" := "1"]> ∅) : gmap string string) !! k).
Proof.
  assert (Hd : headers_dict "a:1,junk,a:2"
               = inr (<["a" := "2"]> (<["a" := "1"]> ∅))) by reflexivity.
  assert (Hin : "a:1" ∈ PyStr.split comma "a:1,junk,a:2")
    by (simpl; apply list_elem_of_here).
  split_and!; [exact Hd | exact Hin | reflexivity |].
  exact (headers_dict_binds_every_item _ _ _ Hd Hin eq_refl).
Defined.

(** X3.  Parsing distributes over a comma: the mapping of [a,b] is the
    mapping of [b] completed by that of [a], so that a key given again
    further right wins and items without a colon change nothing. *)
Theorem headers_dict_concat (a b : string) (da db : gmap string string) :
  headers_dict a = inr da →
  headers_dict b = inr db →
  headers_dict (a ++ String comma b)%string = inr (db ∪ da).
Proof.
  unfold headers_dict, dict. intros Ha Hb.
  rewrite split_cat, List.filter_app, List.map_app, dict_update_app, Ha.
  rewrite <- (left_id_L ∅ (∪) da) at 1.
  by apply dict_update_union.
Qed.

Lemma headers_dict_concat_witness :
  headers_dict "k:old,x:1" = inr (<["x" := "1"]> (<["k" := "old"]> ∅))
  ∧ headers_dict "junk,k:new" = inr (<["k" := "new"]> ∅)
  ∧ headers_dict "k:old,x:1,junk,k:new"
    = inr (<["k" := "new"]> ∅ ∪ <["x" := "1"]> (<["k" := "old"]> ∅)).
Proof.
  assert (Ha : headers_dict "k:old,x:1" = inr (<["x" := "1"]> (<["k" := "old"]> ∅)))
    by reflexivity.
  assert (Hb : headers_dict "junk,k:new" = inr (<["k" := "new"]> ∅)) by reflexivity.
  split_and!; [exact Ha | exact Hb |].
  exact (headers_dict_concat _ _ _ _ Ha Hb).
Defined.

(** * Further properties of the handlers *)

(** Splits a request into the ways its handler can be left and runs the
    handler along each of them. *)
Ltac paths r w :=
  let form := fresh "form" in
  let task_id := fresh "task_id" in
  let Hok := fresh "Hok" in
  let Hok2 := fresh "Hok2" in
  let Hform := fresh "Hform" in
  let Hfind := fresh "Hfind" in
  destruct r as [|form|task_id]; simpl;
  [ destruct (store_ok_cases (faults w)) as [Hok|Hok];
    [ rewrite (home_returns w Hok) | rewrite (home_query_fails w Hok) ]
  | destruct (form !! "task") eqn:Hform;
    [ destruct (store_ok_cases (faults w)) as [Hok|Hok];
      [ rewrite (add_returns w form _ Hform Hok)
      | rewrite (add_commit_fails w form _ Hform Hok) ]
    | rewrite (add_no_field w form Hform) ]
  | destruct (store_ok_cases (faults w)) as [Hok|Hok];
    [ destruct (List.find (has_id task_id) (tasks w)) eqn:Hfind;
      [ destruct (store_ok_cases (tail (faults w))) as [Hok2|Hok2];
        [ rewrite (delete_returns w task_id _ Hok Hfind Hok2)
        | rewrite (delete_commit_fails w task_id _ Hok Hfind Hok2) ]
      | rewrite (delete_absent w task_id Hok Hfind) ]
    | rewrite (delete_query_fails w task_id Hok) ] ];
  simpl.

(** Goes through the events of a log that is written out. *)
Ltac logged H :=
  repeat (apply elem_of_cons in H as [H|H]);
  [ .. | by apply elem_of_nil in H ];
  try discriminate H.

(** Finds an event in a log that is written out. *)
Ltac is_logged := apply list_elem_of_In; simpl; tauto.

(** X4.  A request that raises has not changed the task table, and no
    request, raising or not, leaves anything pending in the session it
    was called with. *)
Theorem failed_request_keeps_table (r : Request) (w : World) :
  session (dispatch r w).2 = session w
  ∧ ∀ e, (dispatch r w).1 = inl e → tasks (dispatch r w).2 = tasks w.
Proof.
  paths r w; split; try done; discriminate.
Qed.

(** X5.  The span of a request is marked as failed exactly when the
    handler raises: the exception that leaves the handler is the one
    recorded on its span, with the error status, and a request that
    returns records neither on any span. *)
Theorem error_status_iff_raised (r : Request) (w : World) :
  ∃ evs,
    log (dispatch r w).2 = log w ++ evs
    ∧ (∀ e, (dispatch r w).1 = inl e →
         precedes (EvRecordException (next_span w) e)
                  (EvSetStatusError (next_span w)) evs
         ∧ precedes (EvSetStatusError (next_span w))
                    (EvEndSpan (next_span w)) evs)
    ∧ (∀ resp, (dispatch r w).1 = inr resp →
         ∀ span, (EvSetStatusError span ∉ evs)
                 ∧ (∀ e, EvRecordException span e ∉ evs)).
Proof.
  paths r w; eexists; (split; [reflexivity|]); split;
    try (intros ? [= <-]); try discriminate;
    try (intros span; split; [not_logged | intros e; not_logged]).
  - split; [in_order 3 4 | in_order 4 5].
  - split; [in_order 4 5 | in_order 5 6].
  - split; [in_order 2 3 | in_order 3 4].
  - split; [in_order 5 6 | in_order 6 7].
  - split; [in_order 3 4 | in_order 4 5].
  - split; [in_order 3 4 | in_order 4 5].
Qed.

(** X6.  Attributes are only ever set on the span of the request itself,
    and the two success flags are never set on a request that fails:
    where [added_to_db] or [deleted_from_db] is recorded, its value is
    [True], a commit went through before it and the handler redirects. *)
Theorem success_flags_mean_success (r : Request) (w : World) :
  ∃ evs,
    log (dispatch r w).2 = log w ++ evs
    ∧ ∀ span key value,
        EvSetAttribute span key value ∈ evs →
        span = next_span w
        ∧ (key = "added_to_db" ∨ key = "deleted_from_db" →
           value = ABool true
           ∧ (dispatch r w).1 = inr (Redirect "/")
           ∧ precedes (EvStore Commit true) (EvSetAttribute span key value) evs).
Proof.
  paths r w; eexists; (split; [reflexivity|]);
    intros span key value Hin; logged Hin;
    injection Hin as -> -> ->; (split; [reflexivity|]);
    intros [?|?]; try discriminate; split_and!; try reflexivity.
  - in_order 3 4.
  - in_order 4 5.
Qed.

(** ** Listing and adding *)

(** X7.  Listing never changes the table.  When the query goes through
    the page is rendered from exactly the stored tasks, in table order,
    and the span carries their number; when it fails nothing is
    rendered and no attribute is set. *)
Theorem home_lists_the_table (w : World) :
  ∃ evs,
    log (App.home w).2 = log w ++ evs
    ∧ tasks (App.home w).2 = tasks w
    ∧ (store_ok (faults w) = true →
       (App.home w).1 = inr (Rendered (tasks w))
       ∧ precedes (EvStore QueryAll true)
                  (EvSetAttribute (next_span w) "tasks_retrieved.quantity"
                     (AInt (Z.of_nat (length (tasks w))))) evs)
    ∧ (store_ok (faults w) = false →
       (App.home w).1 = inl OperationalError
       ∧ ∀ span key value, EvSetAttribute span key value ∉ evs).
Proof.
  destruct (store_ok_cases (faults w)) as [Hok|Hok]; rewrite Hok.
  - rewrite (home_returns w Hok). simpl.
    eexists. split; [reflexivity|]. split_and!; [done | | done].
    intros _. split; [done | in_order 2 3].
  - rewrite (home_query_fails w Hok). simpl.
    eexists. split; [reflexivity|]. split_and!; [done | done |].
    intros _. split; [done|]. intros span key value. not_logged.
Qed.

Lemma home_lists_the_table_witness :
  store_ok (faults (set_tasks [mkTask 3 "buy milk"] empty_world)) = true
  ∧ (App.home (set_tasks [mkTask 3 "buy milk"] empty_world)).1
    = inr (Rendered [mkTask 3 "buy milk"]).
Proof.
  split; [reflexivity|].
  destruct (home_lists_the_table (set_tasks [mkTask 3 "buy milk"] empty_world))
    as (evs & _ & _ & Hok & _).
  exact (proj1 (Hok eq_refl)).
Defined.

(** X8.  An add request whose form has no [task] field is refused
    before the store is touched: the handler raises the bad-request key
    error for [task], makes no round trip, leaves the table as it was,
    sets no attribute, and has still counted the request. *)
Theorem add_without_field_is_refused (form : gmap string string) (w : World) :
  form !! "task" = None →
  ∃ evs,
    log (App.add form w).2 = log w ++ evs
    ∧ (App.add form w).1 = inl (BadRequestKeyError "task")
    ∧ tasks (App.add form w).2 = tasks w
    ∧ faults (App.add form w).2 = faults w
    ∧ (∀ op ok, EvStore op ok ∉ evs)
    ∧ (∀ span key value, EvSetAttribute span key value ∉ evs)
    ∧ counted evs
      = [("requests_count", 1%Z, {[ "method" := "POST"; "endpoint" := "/add" ]})].
Proof.
  intros Hform. rewrite (add_no_field w form Hform). simpl.
  eexists. split; [reflexivity|]. split_and!; try done.
  - intros op ok. not_logged.
  - intros span key value. not_logged.
Qed.

Lemma add_without_field_is_refused_witness :
  ({[ "title" := "buy milk" ]} : gmap string string) !! "task" = None
  ∧ (App.add {[ "title" := "buy milk" ]} empty_world).1
    = inl (BadRequestKeyError "task").
Proof.
  assert (Hform : ({[ "title" := "buy milk" ]} : gmap string string) !! "task" = None)
    by (vm_compute; reflexivity).
  split; [exact Hform|].
  destruct (add_without_field_is_refused _ empty_world Hform) as (evs & _ & H & _).
  exact H.
Defined.

(** ** Deleting a stored task *)

Lemma find_has_id (task_id : N) (ts : list Task) (t : Task) :
  List.find (has_id task_id) ts = Some t → t ∈ ts ∧ id t = task_id.
Proof.
  intros H. apply find_some in H as [Hin Hid].
  split; [by apply list_elem_of_In|]. by apply N.eqb_eq.
Qed.

Lemma find_skip {A} (f : A → bool) (l l' : list A) :
  Forall (λ x, f x = false) l → List.find f (l ++ l') = List.find f l'.
Proof.
  induction 1 as [|x l Hx _ IH]; simpl; [done|]. by rewrite Hx.
Qed.

(** Once the rows with an id are filtered out, that id is not found. *)
Lemma find_after_filter (task_id : N) (ts : list Task) :
  List.find (has_id task_id) (List.filter (λ r, negb (has_id task_id r)) ts) = None.
Proof.
  induction ts as [|t ts IH]; simpl; [done|].
  destruct (has_id task_id t) eqn:Ht; simpl; [done|]. by rewrite Ht.
Qed.

Lemma filter_keeps_other_ids (task_id : N) (ts : list Task) :
  Forall (λ t, id t ≠ task_id) ts →
  List.filter (λ r, negb (has_id task_id r)) ts = ts.
Proof.
  induction 1 as [|t ts Ht _ IH]; simpl; [done|].
  unfold has_id at 1. destruct (N.eqb_spec (id t) task_id); [done|].
  simpl. by rewrite IH.
Qed.

(** X9.  Deleting the id of a stored task, both round trips going
    through, redirects to the list, removes every row with that id and
    no other row, and records on the span the description of the task
    before the commit and [deleted_from_db = True] after it. *)
Theorem delete_removes_the_task (task_id : N) (t : Task) (w : World) :
  List.find (has_id task_id) (tasks w) = Some t →
  store_ok (faults w) = true →
  store_ok (tail (faults w)) = true →
  ∃ evs,
    log (App.delete task_id w).2 = log w ++ evs
    ∧ (App.delete task_id w).1 = inr (Redirect "/")
    ∧ List.find (has_id task_id) (tasks (App.delete task_id w).2) = None
    ∧ (∀ r, r ∈ tasks (App.delete task_id w).2 ↔ r ∈ tasks w ∧ id r ≠ task_id)
    ∧ precedes (EvSetAttribute (next_span w) "task_to_delete" (AStr (description t)))
               (EvStore Commit true) evs
    ∧ precedes (EvStore Commit true)
               (EvSetAttribute (next_span w) "deleted_from_db" (ABool true)) evs.
Proof.
  intros Hfind Hok Hok2.
  destruct (find_has_id _ _ _ Hfind) as [_ Hid].
  rewrite (delete_returns w task_id t Hok Hfind Hok2). simpl. rewrite Hid.
  eexists. split; [reflexivity|]. split_and!.
  - done.
  - apply find_after_filter.
  - intros r. rewrite !list_elem_of_In, filter_In. unfold has_id.
    destruct (N.eqb_spec (id r) task_id); simpl; split; intros [? ?]; done.
  - in_order 3 4.
  - in_order 4 5.
Qed.

Lemma delete_removes_the_task_witness :
  List.find (has_id 3) (tasks (set_tasks [mkTask 3 "buy milk"; mkTask 4 "walk"] empty_world))
  = Some (mkTask 3 "buy milk")
  ∧ tasks (App.delete 3 (set_tasks [mkTask 3 "buy milk"; mkTask 4 "walk"] empty_world)).2
    = [mkTask 4 "walk"]
  ∧ List.find (has_id 3)
      (tasks (App.delete 3 (set_tasks [mkTask 3 "buy milk"; mkTask 4 "walk"] empty_world)).2)
    = None.
Proof.
  split_and!; [reflexivity | reflexivity |].
  destruct (delete_removes_the_task 3 (mkTask 3 "buy milk")
              (set_tasks [mkTask 3 "buy milk"; mkTask 4 "walk"] empty_world)
              eq_refl eq_refl eq_refl) as (evs & _ & _ & H & _).
  exact H.
Defined.

(** X10.  Adding a task and then deleting the id of the row the add
    created brings the table back to what it was, whatever it held. *)
Theorem add_then_delete_restores (form : gmap string string)
    (task_description : string) (w : World) (new : Task) :
  form !! "task" = Some task_description →
  store_ok (faults w) = true →
  store_ok (tail (faults w)) = true →
  store_ok (tail (tail (faults w))) = true →
  new ∈ tasks (App.add form w).2 →
  new ∉ tasks w →
  (App.delete (id new) (App.add form w).2).1 = inr (Redirect "/")
  ∧ tasks (App.delete (id new) (App.add form w).2).2 = tasks w.
Proof.
  intros Hform Hok Hok2 Hok3.
  rewrite (add_returns w form _ Hform Hok). simpl.
  intros Hin Hnotin.
  apply elem_of_app in Hin as [Hin|Hin]; [done|].
  apply list_elem_of_singleton in Hin as ->. simpl.
  assert (Hother : Forall (λ t, id t ≠ fresh_id (tasks w)) (tasks w)).
  { eapply Forall_impl; [apply fresh_id_above|]. simpl. intros t Ht. lia. }
  set (new := mkTask (fresh_id (tasks w)) task_description).
  assert (Hfind : List.find (has_id (fresh_id (tasks w))) (tasks w ++ [new]) = Some new).
  { rewrite find_skip.
    - simpl. unfold has_id. simpl. by rewrite N.eqb_refl.
    - eapply Forall_impl; [exact Hother|]. simpl. intros t Ht.
      unfold has_id. by apply N.eqb_neq. }
  rewrite delete_returns with (t := new); simpl; try done.
  split; [done|].
  rewrite List.filter_app, filter_keeps_other_ids by done.
  simpl. unfold has_id. simpl. rewrite N.eqb_refl. simpl. apply app_nil_r.
Qed.

Lemma add_then_delete_restores_witness :
  ({[ "task" := "buy milk" ]} : gmap string string) !! "task" = Some "buy milk"
  ∧ mkTask 4 "buy milk"
    ∈ tasks (App.add {[ "task" := "buy milk" ]}
               (set_tasks [mkTask 3 "walk"] empty_world)).2
  ∧ (mkTask 4 "buy milk" ∉ [mkTask 3 "walk"])
  ∧ tasks (App.delete 4
             (App.add {[ "task" := "buy milk" ]}
                (set_tasks [mkTask 3 "walk"] empty_world)).2).2
    = [mkTask 3 "walk"].
Proof.
  assert (Hform : ({[ "task" := "buy milk" ]} : gmap string string) !! "task"
                  = Some "buy milk") by (vm_compute; reflexivity).
  assert (Hin : mkTask 4 "buy milk"
                ∈ tasks (App.add {[ "task" := "buy milk" ]}
                           (set_tasks [mkTask 3 "walk"] empty_world)).2).
  { apply list_elem_of_In. vm_compute. tauto. }
  assert (Hnotin : mkTask 4 "buy milk" ∉ [mkTask 3 "walk"]).
  { intros H. apply list_elem_of_singleton in H. discriminate H. }
  split_and!; [exact Hform | exact Hin | exact Hnotin |].
  exact (proj2 (add_then_delete_restores _ _ (set_tasks [mkTask 3 "walk"] empty_world)
                  (mkTask 4 "buy milk") Hform eq_refl eq_refl eq_refl Hin Hnotin)).
Defined.

(** X11.  Deleting is not repeatable: once a delete of an id has gone
    through, a second delete of the same id finds nothing, raises the
    attribute error on the absent record and leaves the table as the
    first delete left it. *)
Theorem second_delete_raises (task_id : N) (t : Task) (w : World) :
  List.find (has_id task_id) (tasks w) = Some t →
  store_ok (faults w) = true →
  store_ok (tail (faults w)) = true →
  store_ok (tail (tail (faults w))) = true →
  (App.delete task_id (App.delete task_id w).2).1
  = inl (AttributeError "'NoneType' object has no attribute 'description'")
  ∧ tasks (App.delete task_id (App.delete task_id w).2).2
    = tasks (App.delete task_id w).2.
Proof.
  intros Hfind Hok Hok2 Hok3.
  destruct (find_has_id _ _ _ Hfind) as [_ Hid].
  rewrite (delete_returns w task_id t Hok Hfind Hok2). simpl. rewrite Hid.
  rewrite delete_absent; simpl; try done.
  apply find_after_filter.
Qed.

Lemma second_delete_raises_witness :
  List.find (has_id 3) (tasks (set_tasks [mkTask 3 "buy milk"] empty_world))
  = Some (mkTask 3 "buy milk")
  ∧ (App.delete 3 (App.delete 3 (set_tasks [mkTask 3 "buy milk"] empty_world)).2).1
    = inl (AttributeError "'NoneType' object has no attribute 'description'").
Proof.
  split; [reflexivity|].
  exact (proj1 (second_delete_raises 3 (mkTask 3 "buy milk")
                  (set_tasks [mkTask 3 "buy milk"] empty_world)
                  eq_refl eq_refl eq_refl eq_refl)).
Defined.

(** ** The table over a run *)

Lemma filter_ids_NoDup (p : Task → bool) (ts : list Task) :
  NoDup (map id ts) → NoDup (map id (List.filter p ts)).
Proof.
  induction ts as [|t ts IH]; simpl; [done|].
  rewrite NoDup_cons. intros [Hnotin Hnd].
  destruct (p t); simpl; [|by apply IH].
  apply NoDup_cons. split; [|by apply IH].
  intros Hin. apply Hnotin.
  apply list_elem_of_In, in_map_iff in Hin as (r & Hr & Hin).
  apply filter_In in Hin as [Hin _].
  apply list_elem_of_In, in_map_iff. by exists r.
Qed.

Lemma append_fresh_NoDup (d : string) (ts : list Task) :
  NoDup (map id ts) → NoDup (map id (ts ++ [mkTask (fresh_id ts) d])).
Proof.
  intros Hnd. rewrite List.map_app. simpl.
  apply NoDup_app. split_and!; [done | | apply NoDup_singleton].
  intros x Hx Hnew. apply list_elem_of_singleton in Hnew as ->.
  apply list_elem_of_In, in_map_iff in Hx as (t & Ht & Hin).
  pose proof (fresh_id_above ts) as Habove. rewrite Forall_forall in Habove.
  apply list_elem_of_In in Hin. specialize (Habove _ Hin). simpl in Habove. lia.
Qed.

Lemma dispatch_unique_ids (r : Request) (w : World) :
  NoDup (map id (tasks w)) → NoDup (map id (tasks (dispatch r w).2)).
Proof.
  intros Hnd. paths r w; try done.
  - by apply append_fresh_NoDup.
  - by apply filter_ids_NoDup.
Qed.

(** X12.  Ids stay unique: over any sequence of requests, with any
    pattern of store failures, a table in which no two tasks share an
    id is still such a table at the end. *)
Theorem serve_keeps_ids_unique (reqs : list Request) (w : World) :
  NoDup (map id (tasks w)) → NoDup (map id (tasks (serve reqs w).2)).
Proof.
  revert w. induction reqs as [|r reqs IH]; intros w Hnd; simpl; [done|].
  pose proof (dispatch_unique_ids r w Hnd) as Hnd1.
  destruct (dispatch r w) as [out w1]. simpl in Hnd1.
  specialize (IH w1 Hnd1). by destruct (serve reqs w1).
Qed.

Lemma serve_keeps_ids_unique_witness :
  NoDup (map id (tasks empty_world))
  ∧ NoDup (map id (tasks (serve [PostAdd {[ "task" := "a" ]};
                                 PostAdd {[ "task" := "b" ]};
                                 GetDelete 1;
                                 PostAdd {[ "task" := "c" ]}] empty_world).2)).
Proof.
  assert (Hnd : NoDup (map id (tasks empty_world))) by apply NoDup_nil_2.
  split; [exact Hnd|].
  exact (serve_keeps_ids_unique _ empty_world Hnd).
Defined.

(** X13.  Over a run, telemetry adds up request by request: the log
    grows by exactly one increment and one span per request, in the
    order of the requests, each with the labels and the name of its
    own request, span ids running on from the one the run started at;
    and every request has its outcome. *)
Theorem serve_telemetry (reqs : list Request) (w : World) :
  ∃ evs,
    log (serve reqs w).2 = log w ++ evs
    ∧ counted evs = map (λ r, ("requests_count", 1%Z, request_labels r)) reqs
    ∧ started evs
      = zip (seq (next_span w) (length reqs)) (map operation_name reqs)
    ∧ ended evs = seq (next_span w) (length reqs)
    ∧ length (serve reqs w).1 = length reqs.
Proof.
  revert w. induction reqs as [|r reqs IH]; intros w; simpl.
  - exists []. by rewrite app_nil_r.
  - destruct (dispatch_telemetry r w) as (e1 & Hl1 & Hn1 & Hs1 & He1 & Hc1 & _).
    destruct (dispatch r w) as [out w1]. simpl in *.
    destruct (IH w1) as (e2 & Hl2 & Hc2 & Hs2 & He2 & Hlen).
    destruct (serve reqs w1) as [outs w2]. simpl in *.
    exists (e1 ++ e2).
    rewrite Hl2, Hl1, app_assoc, counted_app, started_app, ended_app.
    rewrite Hc1, Hc2, Hs1, Hs2, He1, He2, Hn1, Hlen. done.
Qed.

(** X14.  The endpoint label of a delete request tells the id: two
    delete requests make increments with the same labels only when
    they are for the same id, so every id deleted is a label set of its
    own on [requests_count]. *)
Theorem delete_labels_tell_the_id (a b : N) (w w' : World) (evs evs' : list Event) :
  log (App.delete a w).2 = log w ++ evs →
  log (App.delete b w').2 = log w' ++ evs' →
  counted evs = counted evs' →
  a = b.
Proof.
  intros Hl Hl' Hc.
  destruct (dispatch_telemetry (GetDelete a) w) as (e1 & Hl1 & _ & _ & _ & Hc1 & _).
  destruct (dispatch_telemetry (GetDelete b) w') as (e2 & Hl2 & _ & _ & _ & Hc2 & _).
  simpl in Hl1, Hl2.
  rewrite Hl in Hl1. apply app_inv_head in Hl1 as ->.
  rewrite Hl' in Hl2. apply app_inv_head in Hl2 as ->.
  rewrite Hc1, Hc2 in Hc.
  assert (Hlabels : request_labels (GetDelete a) = request_labels (GetDelete b))
    by congruence.
  assert (Hend : request_labels (GetDelete a) !! "endpoint"
                 = request_labels (GetDelete b) !! "endpoint") by (by rewrite Hlabels).
  unfold request_labels in Hend. simpl in Hend.
  rewrite !lookup_insert_ne, !lookup_singleton_eq in Hend by done.
  injection Hend as Hend. change (pretty a = pretty b) in Hend.
  by apply (inj pretty) in Hend.
Qed.

Lemma delete_labels_tell_the_id_witness :
  ∃ evs,
    log (App.delete 7 empty_world).2 = log empty_world ++ evs
    ∧ counted evs = counted evs
    ∧ 7%N = 7%N.
Proof.
  eexists. split_and!; [reflexivity | reflexivity |].
  exact (delete_labels_tell_the_id 7 7 empty_world empty_world _ _
           eq_refl eq_refl eq_refl).
Defined.

(** X15.  A request is counted before anything in it can fail: in every
    handler, on every way out, the increment is the first thing logged
    after the start of the span, ahead of the form lookup, of every
    store round trip and of every attribute. *)
Theorem counted_before_anything_else (r : Request) (w : World) :
  ∃ rest,
    log (dispatch r w).2
    = log w ++ EvStartSpan (next_span w) (operation_name r)
               :: EvCounterAdd "requests_count" 1
                    {[ "method" := http_method r; "endpoint" := http_endpoint r ]}
               :: rest.
Proof.
  paths r w; eexists; reflexivity.
Qed.
